(** * The theme provider of the portfolio site

    A shallow embedding of [components/theme-provider.tsx]: the [Theme]
    type, the type guard [isValidTheme], the [useState] initialiser, the
    synchronisation effect, [toggleTheme] and the [useTheme] hook.

    The browser objects the component talks to are modelled as far as the
    component uses them: [localStorage] as a finite map from keys to values
    whose access can throw, and [document.documentElement.classList] as an
    ordered list of tokens without repetition. *)

From stdpp Require Import gmap strings list.

Local Open Scope string_scope.
Local Open Scope list_scope.

(** ** Values *)

(** [type Theme = "dark" | "light"] *)
Inductive Theme := dark | light.

#[global] Instance Theme_eq_dec : EqDecision Theme.
Proof. solve_decision. Defined.

(** A [Theme] is, at run time, the string that spells it. *)
Definition str (t : Theme) : string :=
  match t with dark => "dark" | light => "light" end.

(** Exceptions the modelled code can raise or let through. *)
Inductive Exn :=
| SecurityError
| QuotaExceededError
| Error (message : string).

#[global] Instance Exn_eq_dec : EqDecision Exn.
Proof. solve_decision. Defined.

(** The result of running a piece of JavaScript: it returns or it throws. *)
Inductive Completion (A : Type) :=
| Normal (a : A)
| Throw (e : Exn).
Arguments Normal {A} a.
Arguments Throw {A} e.

#[global] Instance Completion_ret : MRet Completion := @Normal.
#[global] Instance Completion_bind : MBind Completion := λ A B k m,
  match m with Normal a => k a | Throw e => Throw e end.

(** ** The browser *)

(** Whether [localStorage] can be used. [Blocked]: reading the
    [localStorage] attribute throws (storage disabled). [Full]: reading
    works and [setItem] throws (quota exceeded). *)
Inductive StorageStatus := Available | Full | Blocked.

#[global] Instance StorageStatus_eq_dec : EqDecision StorageStatus.
Proof. solve_decision. Defined.

Record Browser := {
  items : gmap string string;      (* the contents of localStorage *)
  status : StorageStatus;
  classList : list string;         (* document.documentElement.classList *)
  written : list (string * string) (* the setItem calls that stored a value, oldest first *)
}.

(** Code that runs in the browser: it may change it, and it may throw. *)
Definition JS (A : Type) : Type := Browser → Completion A * Browser.

#[global] Instance JS_ret : MRet JS := λ A a w, (Normal a, w).
#[global] Instance JS_bind : MBind JS := λ A B k m w,
  match m w with
  | (Normal a, w') => k a w'
  | (Throw e, w') => (Throw e, w')
  end.

(** [localStorage.getItem(key)] *)
Definition getItem (key : string) (w : Browser) : Completion (option string) :=
  match status w with
  | Blocked => Throw SecurityError
  | Available | Full => Normal (items w !! key)
  end.

(** [localStorage.setItem(key, value)] *)
Definition setItem (key value : string) : JS unit := λ w,
  match status w with
  | Available =>
      (Normal (),
       {| items := <[key := value]> (items w); status := status w;
          classList := classList w;
          written := written w ++ [(key, value)] |})
  | Full => (Throw QuotaExceededError, w)
  | Blocked => (Throw SecurityError, w)
  end.

Definition set_classList (l : list string) (w : Browser) : Browser :=
  {| items := items w; status := status w; classList := l;
     written := written w |}.

(** [classList.contains(token)] *)
Definition classList_contains (token : string) (w : Browser) : bool :=
  bool_decide (token ∈ classList w).

(** [classList.remove(...tokens)] *)
Definition classList_remove (tokens : list string) : JS unit := λ w,
  (Normal (), set_classList (filter (λ c, c ∉ tokens) (classList w)) w).

(** [classList.add(token)]: a token already present is not added again. *)
Definition classList_add (token : string) : JS unit := λ w,
  (Normal (),
   if bool_decide (token ∈ classList w) then w
   else set_classList (classList w ++ [token]) w).

(** ** theme-provider.tsx *)

(** [function isValidTheme(value: string | null): value is Theme] *)
Definition isValidTheme (value : option string) : bool :=
  bool_decide (value = Some "dark") || bool_decide (value = Some "light").

(** The value of type [Theme] that a string accepted by the guard is. The
    second branch is taken only for ["light"], see [isValidTheme_narrow]. *)
Definition narrow (value : option string) : Theme :=
  if bool_decide (value = Some "dark") then dark else light.

(** The initialiser passed to [useState]. [window] is the browser the code
    runs in, [None] where [typeof window] is ["undefined"]. *)
Definition initializer (window : option Browser) : Completion Theme :=
  match window with
  | Some w =>
      stored ← getItem "theme" w;
      if isValidTheme stored then mret (narrow stored)
      else mret (if classList_contains "dark" w then dark else light)
  | None => mret dark
  end.

(** The effect passed to [useEffect], for the rendered [theme]. *)
Definition effect (theme : Theme) : JS unit :=
  classList_remove ["light"; "dark"];;
  classList_add (str theme);;
  setItem "theme" (str theme).

(** The state the hooks of a mounted [ThemeProvider] keep between renders. *)
Record Hooks := {
  theme : Theme;                   (* the state of useState *)
  queue : list (Theme → Theme);    (* updates passed to setTheme, not yet rendered *)
  deps : option Theme              (* [theme] at the last run of the effect *)
}.

(** [setTheme(action)] queues the update for the next render. *)
Definition setTheme (action : Theme → Theme) (h : Hooks) : Hooks :=
  {| theme := theme h; queue := queue h ++ [action]; deps := deps h |}.

(** [const toggleTheme = () => { setTheme(prev => ...) }] *)
Definition toggleTheme (h : Hooks) : Hooks :=
  setTheme (λ prev, if decide (prev = dark) then light else dark) h.

(** What [useState] returns at the next render: the queued updates applied
    in order to the current state. *)
Definition useState (h : Hooks) : Theme :=
  fold_left (λ s action, action s) (queue h) (theme h).

Definition render (h : Hooks) : Hooks :=
  {| theme := useState h; queue := []; deps := deps h |}.

(** [useEffect(effect, [theme])] after a render: the effect runs when the
    dependency differs from the one of its last run, and at mount. *)
Definition useEffect (h : Hooks) : JS Hooks :=
  if decide (deps h = Some (theme h)) then mret h
  else
    effect (theme h);;
    mret {| theme := theme h; queue := queue h; deps := Some (theme h) |}.

(** A render of the mounted provider followed by its effects. *)
Definition update (h : Hooks) : JS Hooks := useEffect (render h).

(** The first render of the provider in a browser, and its effects. *)
Definition mount : JS Hooks := λ w,
  match initializer (Some w) with
  | Normal t => useEffect {| theme := t; queue := []; deps := None |} w
  | Throw e => (Throw e, w)
  end.

(** One event in which [toggleTheme] is called once (a click on the theme
    toggle), with the render that follows it. *)
Definition click (h : Hooks) : JS Hooks := update (toggleTheme h).

(** [n] such events, one after the other; an exception ends the run. *)
Fixpoint clicks (n : nat) (h : Hooks) : JS Hooks :=
  match n with
  | 0 => mret h
  | S n' => h' ← click h; clicks n' h'
  end.

(** Calls of [toggleTheme] and renders, in any order. *)
Inductive Event := Toggle | Render.

#[global] Instance Event_eq_dec : EqDecision Event.
Proof. solve_decision. Defined.

Fixpoint run (events : list Event) (h : Hooks) : JS Hooks :=
  match events with
  | [] => mret h
  | Toggle :: rest => run rest (toggleTheme h)
  | Render :: rest => h' ← update h; run rest h'
  end.

(** The number of [toggleTheme] calls among the events. *)
Definition toggles (events : list Event) : nat :=
  length (filter (λ e, e = Toggle) events).

(** ** The context and its hook *)

Module ThemeContextValue.
Record t := {
  theme : Theme;
  toggleTheme : Hooks → Hooks
}.
End ThemeContextValue.

(** The components above a consumer, the nearest first. [ThemeContext] is
    not exported, so the only component that renders its [Provider] is
    [ThemeProvider]; [h] is the state of its hooks at that render. *)
Inductive Component :=
| ThemeProvider (h : Hooks)
| Other (name : string).

(** [<ThemeContext.Provider value={{ theme, toggleTheme }}>] *)
Definition value (h : Hooks) : ThemeContextValue.t :=
  {| ThemeContextValue.theme := theme h;
     ThemeContextValue.toggleTheme := toggleTheme |}.

(** [useContext(ThemeContext)]: the value of the nearest provider, and the
    default of [createContext], [undefined], when there is none. *)
Fixpoint useContext (ancestors : list Component) : option ThemeContextValue.t :=
  match ancestors with
  | [] => None
  | ThemeProvider h :: _ => Some (value h)
  | Other _ :: rest => useContext rest
  end.

(** [export function useTheme()] *)
Definition useTheme (ancestors : list Component) : Completion ThemeContextValue.t :=
  match useContext ancestors with
  | None => Throw (Error "useTheme must be used within a ThemeProvider")
  | Some context => Normal context
  end.

Definition is_provider (c : Component) : Prop :=
  match c with ThemeProvider _ => True | Other _ => False end.

(** ** Notions used in the statements *)

(** The other variant. *)
Definition other (t : Theme) : Theme :=
  match t with dark => light | light => dark end.

(** The presentation markers the document root carries, in order. *)
Definition markers (w : Browser) : list string :=
  filter (λ c, c ∈ ["light"; "dark"]) (classList w).

(** Nothing is queued and the effect has run for the current state: the
    provider between two events. *)
Definition settled (h : Hooks) : Prop :=
  queue h = [] ∧ deps h = Some (theme h).

(** The settled provider whose theme is [t]. *)
Definition idle (t : Theme) : Hooks :=
  {| theme := t; queue := []; deps := Some t |}.

(** The states of a provider that was mounted in a browser and then
    clicked any number of times, no exception being raised. *)
Inductive reachable : Hooks → Browser → Prop :=
| reachable_mount w h w' :
    mount w = (Normal h, w') → reachable h w'
| reachable_click h w h' w' :
    reachable h w → click h w = (Normal h', w') → reachable h' w'.

(** The values the toggles write, from the theme [t] on. *)
Fixpoint toggle_writes (n : nat) (t : Theme) : list (string * string) :=
  match n with
  | 0 => []
  | S n' => ("theme", str (other t)) :: toggle_writes n' (other t)
  end.

(** What graceful degradation would be at one click: the provider goes on
    with the new theme in memory although storage threw. *)
Definition degrades (h : Hooks) (w : Browser) : Prop :=
  ∃ h' w', click h w = (Normal h', w') ∧ theme h' = other (theme h).

(** ** Browsers used in the examples *)

(** A first visit: nothing stored, no class on the root. *)
Definition first_visit : Browser :=
  {| items := ∅; status := Available; classList := []; written := [] |}.

(** A value left by some other version of the site, on a page whose root
    is marked dark in the markup. *)
Definition legacy_visit : Browser :=
  {| items := {["theme" := "blue"]}; status := Available;
     classList := ["dark"; "antialiased"]; written := [] |}.

(** A dark page whose storage has no room left. *)
Definition quota_exceeded : Browser :=
  {| items := {["theme" := "dark"]}; status := Full;
     classList := ["dark"]; written := [] |}.

(** ** The pages *)

(** What a component returns: React elements as the JSX of the source
    writes them, with their props in source order. The type of an element
    is the tag or the name of the component, as JSX has it. *)
Inductive Key := Index (index : nat) | Named (name : string).

#[global] Instance Key_eq_dec : EqDecision Key.
Proof. solve_decision. Defined.

Inductive PropValue :=
| Str (s : string)
| Flag (b : bool)
| Ctx (value : ThemeContextValue.t).

#[local] Set Warnings "-register-all".

Inductive JSX :=
| Element (type : string) (key : option Key)
    (props : list (string * PropValue)) (children : list JSX)
| Arr (items : list JSX)            (* the array a [map] returns *)
| Text (s : string)
| Nothing.                          (* undefined *)

(** [value && element], for an optional string [value]: [undefined] and
    the empty string are falsy and are themselves the result. *)
Definition and_then (value : option string) (element : string → JSX) : JSX :=
  match value with
  | None => Nothing
  | Some s => if decide (s = "") then Text "" else element s
  end.

Definition experience : list (string * string * string * string) :=
  (* title, company, period, description *)
  [ ("Founding Engineer", "Team Lily", "Sep 2025 - Present",
     "Building AI hiring tools.");
    ("Tech Lead / Interim VP Engineering", "Let's Do This",
     "Sep 2022 - Sep 2025",
     "Led engineering teams building a marketplace for sporting and mass participation events.");
    ("Senior Full Stack Engineer", "Dishpatch", "Jun 2021 - Sep 2022",
     "Built infrastructure for nationwide delivery of restaurantmeal kits. Later sold to Waitrose");
    ("Co-Founder / CTO", "Watch With", "Nov 2020 - Jun 2021",
     "Co-founded a costreaming platform for streamers to watch content with their viewers. 30k users in the first week") ].

(** [interface Project] *)
Record Project := {
  title : string;
  description : string;
  tech : list string;
  url : option string;
  note : option string
}.

Definition projects : list Project :=
  [ {| title := "Transcribe My Notes";
       description := "Thousands of voice notes transcribed across 56 languages. Forward WhatsApp messages, get text back in seconds.";
       tech := ["Whisper"; "WhatsApp"];
       url := Some "https://transcribemynotes.com";
       note := None |};
    {| title := "Morpheu5";
       description := "Sold out four generative art collections (1,000 pieces) for £300k. Raised £30k for the war in Ukraine.";
       tech := ["Generative Art"];
       url := Some "https://www.morpheu5.com/";
       note := None |};
    {| title := "Super Magic Link";
       description := "Costreaming platform used by ~2,000 streamers to create ~9,000 hours of content watched millions of times.";
       tech := ["Twitch"; "Video Sync"];
       url := None;
       note := Some "Shut down" |} ].

(** The callback of [project.tech.map] in [HomePage]. *)
Definition tech_badge (tech : string) : JSX :=
  Element "span" (Some (Named tech))
    [("className", Str "rounded-full bg-secondary px-2 py-1 text-xs text-secondary-foreground")]
    [Text tech].

(** The callback of [projects.map] in [HomePage]. *)
Definition project_card (index : nat) (project : Project) : JSX :=
  Element "div" (Some (Index index))
    [("className", Str "group rounded-lg border border-border bg-card p-6 transition-colors hover:border-primary/50")]
    [Element "div" None [("className", Str "space-y-3")]
      [Element "div" None
         [("className", Str "flex items-center justify-between gap-2")]
         [Element "h3" None
            [("className", Str "font-medium group-hover:text-primary")]
            [Text (title project)];
          and_then (url project) (λ url,
             Element "a" None
               [("href", Str url);
                ("target", Str "_blank");
                ("rel", Str "noopener noreferrer");
                ("className", Str "text-muted-foreground transition-colors hover:text-foreground");
                ("aria-label", Str ("Visit " +:+ title project))]
               [Element "ExternalLink" None [("className", Str "h-4 w-4")] []])];
       Element "p" None [("className", Str "text-sm text-muted-foreground")]
         [Text (description project)];
       Element "div" None [("className", Str "flex flex-wrap gap-2")]
         [Arr (map tech_badge (tech project));
          and_then (note project) (λ note,
             Element "span" None
               [("className", Str "rounded-full bg-muted px-2 py-1 text-xs text-muted-foreground")]
               [Text note])]]].

(** The callback of [experience.map] in [HomePage]. *)
Definition job_entry (index : nat) (job : string * string * string * string) : JSX :=
  let '(job_title, company, period, job_description) := job in
  Element "div" (Some (Index index))
    [("className", Str "relative border-l-2 border-border pl-6 pb-2")]
    [Element "div" None
       [("className", Str "absolute -left-[9px] top-0 h-4 w-4 rounded-full border-2 border-primary bg-background")]
       [];
     Element "div" None [("className", Str "space-y-1")]
       [Element "h3" None [("className", Str "font-medium")] [Text job_title];
        Element "p" None [("className", Str "text-sm text-primary")] [Text company];
        Element "p" None [("className", Str "text-sm text-muted-foreground")] [Text period];
        Element "p" None [("className", Str "pt-2 text-muted-foreground")]
          [Text job_description]]].

(** [export function HomePage()]. [EMAIL] is the constant the module
    imports from [@/constants]. *)
Definition HomePage (EMAIL : string) : JSX :=
  Element "div" None [("className", Str "space-y-16")]
    [Element "section" None [("className", Str "space-y-4 py-8")]
       [Element "img" None
          [("src", Str "/me.png"); ("alt", Str "Matthew Sharp");
           ("className", Str "h-24 w-24 rounded-full")] [];
        Element "p" None [("className", Str "max-w-2xl text-lg text-foreground")]
          [Text "Software engineer building AI products. Father. Occasional founder. I like skiing, motorsport, running, cooking, especially when fire or baking is involved."];
        Element "div" None [("className", Str "pt-4")]
          [Element "Button" None
             [("variant", Str "outline"); ("asChild", Flag true)]
             [Element "a" None [("href", Str ("mailto:" +:+ EMAIL))]
                [Text EMAIL]]]];
     Element "section" None [("className", Str "space-y-6")]
       [Element "h2" None
          [("className", Str "text-2xl font-semibold tracking-tight")]
          [Text "Projects"];
        Element "div" None
          [("className", Str "grid gap-6 sm:grid-cols-2 lg:grid-cols-3")]
          [Arr (imap project_card projects)]];
     Element "section" None [("className", Str "space-y-6")]
       [Element "h2" None
          [("className", Str "text-2xl font-semibold tracking-tight")]
          [Text "Experience"];
        Element "div" None [("className", Str "space-y-8")]
          [Arr (imap job_entry experience)]]].

(** [const socialLinks] of the footer: href, label and icon. *)
Definition socialLinks (EMAIL : string) : list (string * string * string) :=
  [ ("https://github.com/matthewiiv", "GitHub", "Github");
    ("https://www.linkedin.com/in/matthewiiv/", "LinkedIn", "Linkedin");
    ("https://x.com/matthewsharp3", "Twitter", "Twitter");
    ("mailto:" +:+ EMAIL, "Email", "Mail") ].

(** The callback of [socialLinks.map] in [Footer]. *)
Definition social_link (link : string * string * string) : JSX :=
  let '(href, label, icon) := link in
  Element "a" (Some (Named href))
    [("href", Str href);
     ("target", Str "_blank");
     ("rel", Str "noopener noreferrer");
     ("className", Str "text-muted-foreground transition-colors hover:text-foreground");
     ("aria-label", Str label)]
    [Element icon None [("className", Str "h-5 w-5")] []].

(** [export function Footer()] *)
Definition Footer (EMAIL : string) : JSX :=
  Element "footer" None [("className", Str "border-t border-border/40 py-8")]
    [Element "div" None
       [("className", Str "mx-auto flex max-w-3xl flex-col items-center gap-4 px-4")]
       [Element "div" None [("className", Str "flex gap-4")]
          [Arr (map social_link (socialLinks EMAIL))]]].

(** [export function Nav()] *)
Definition Nav : JSX :=
  Element "header" None
    [("className", Str "sticky top-0 z-50 border-b border-border/40 bg-background/80 backdrop-blur-sm")]
    [Element "nav" None
       [("className", Str "mx-auto flex h-14 max-w-3xl items-center justify-between px-4")]
       [Element "span" None [("className", Str "text-lg font-semibold")]
          [Text "Matthew Sharp"];
        Element "ThemeToggle" None [] []]].

(** [export function Layout({ children })] *)
Definition Layout (children : list JSX) : JSX :=
  Element "div" None [("className", Str "flex min-h-screen flex-col")]
    [Element "a" None
       [("href", Str "#main-content");
        ("className", Str "sr-only focus:not-sr-only focus:absolute focus:left-4 focus:top-4 focus:z-50 focus:rounded-md focus:bg-primary focus:px-4 focus:py-2 focus:text-primary-foreground")]
       [Text "Skip to content"];
     Element "Nav" None [] [];
     Element "main" None
       [("id", Str "main-content");
        ("className", Str "mx-auto w-full max-w-3xl flex-1 px-4 py-8")]
       children;
     Element "Footer" None [] []].

(** What [ThemeProvider] returns at a render with the hooks' state [h]. *)
Definition ThemeProvider_returns (h : Hooks) (children : list JSX) : JSX :=
  Element "ThemeContext.Provider" None [("value", Ctx (value h))] children.

(** [function App()] *)
Definition App : JSX :=
  Element "ThemeProvider" None []
    [Element "Layout" None [] [Element "HomePage" None [] []]].

(** The components of the site by name. The components of other modules
    ([ThemeToggle], [Button], the icons) are not among them. *)
Definition component (EMAIL : string) (h : Hooks) (type : string)
  : option (list JSX → JSX) :=
  if decide (type = "App") then Some (λ _, App)
  else if decide (type = "ThemeProvider") then Some (ThemeProvider_returns h)
  else if decide (type = "Layout") then Some Layout
  else if decide (type = "Nav") then Some (λ _, Nav)
  else if decide (type = "HomePage") then Some (λ _, HomePage EMAIL)
  else if decide (type = "Footer") then Some (λ _, Footer EMAIL)
  else None.

(** The tree React builds from an element: a component of the site is
    called and what it returns is rendered below it; the children of any
    other element are rendered below it as they are. [fuel] bounds the
    depth; [None] when it does not suffice. *)
Inductive Fibre := Fib (type : string) (children : list Fibre).

Fixpoint render_tree (EMAIL : string) (h : Hooks) (fuel : nat) (e : JSX)
  : option (list Fibre) :=
  match fuel with
  | 0 => None
  | S fuel' =>
      match e with
      | Nothing | Text _ => Some []
      | Arr items =>
          below ← mapM (render_tree EMAIL h fuel') items;
          Some (concat below)
      | Element type _ _ children =>
          match component EMAIL h type with
          | Some body =>
              below ← render_tree EMAIL h fuel' (body children);
              Some [Fib type below]
          | None =>
              below ← mapM (render_tree EMAIL h fuel') children;
              Some [Fib type (concat below)]
          end
      end
  end.

(** Every fibre of a tree with the components above it, the nearest
    first; [above] are those above the tree itself. The one provider of
    the site has the hooks' state [h]. *)
Definition as_component (h : Hooks) (type : string) : Component :=
  if decide (type = "ThemeProvider") then ThemeProvider h else Other type.

Fixpoint consumers (h : Hooks) (above : list Component) (f : Fibre)
  : list (string * list Component) :=
  match f with
  | Fib type children =>
      (type, above)
      :: flat_map (consumers h (as_component h type :: above)) children
  end.

(** All the elements of a given type inside an element, itself included,
    with their props. *)
Fixpoint elements (type : string) (e : JSX) : list (list (string * PropValue)) :=
  match e with
  | Element type' _ props children =>
      (if decide (type' = type) then [props] else [])
      ++ flat_map (elements type) children
  | Arr items => flat_map (elements type) items
  | Text _ | Nothing => []
  end.

(** The string a prop has, if it has one. *)
Fixpoint prop (name : string) (props : list (string * PropValue)) : option string :=
  match props with
  | [] => None
  | (name', v) :: rest =>
      if decide (name' = name)
      then match v with Str s => Some s | _ => None end
      else prop name rest
  end.

(** The keys of the elements of an array, in order. *)
Definition keys (items : list JSX) : list (option Key) :=
  map (λ e, match e with Element _ key _ _ => key | _ => None end) items.

(** An anchor that opens a new browsing context gives it no access to the
    opener. *)
Definition safe_anchor (props : list (string * PropValue)) : Prop :=
  prop "target" props = Some "_blank" →
  prop "rel" props = Some "noopener noreferrer".

(** ** The stop hook *)

(** The shell script that runs the type check, the tests, the linter and
    the formatter. A command is run as [$(command 2>&1)]: what it prints
    is captured, and [$?] is its exit status. *)
Record Ran := {
  output : string;
  exit_status : nat
}.

(** What the script gets from its host: the result of each command, and
    for each command the time between the two [date] calls around it, as
    [awk] formats it. *)
Record Host := {
  exec : string → Ran;
  elapsed : string → string
}.

Record Shell := {
  HAS_ERRORS : nat;
  stdout : list string;
  stderr : list string;
  commands : list string          (* the commands run so far, in order *)
}.

Definition Sh (A : Type) : Type := Shell → A * Shell.

#[global] Instance Sh_ret : MRet Sh := λ A a s, (a, s).
#[global] Instance Sh_bind : MBind Sh := λ A B k m s,
  let '(a, s') := m s in k a s'.

(** [echo line] *)
Definition echo (line : string) : Sh unit := λ s,
  ((), {| HAS_ERRORS := HAS_ERRORS s; stdout := stdout s ++ [line];
          stderr := stderr s; commands := commands s |}).

(** [echo line >&2] *)
Definition echo_err (line : string) : Sh unit := λ s,
  ((), {| HAS_ERRORS := HAS_ERRORS s; stdout := stdout s;
          stderr := stderr s ++ [line]; commands := commands s |}).

(** [HAS_ERRORS=v] *)
Definition set_HAS_ERRORS (v : nat) : Sh unit := λ s,
  ((), {| HAS_ERRORS := v; stdout := stdout s; stderr := stderr s;
          commands := commands s |}).

Definition get_HAS_ERRORS : Sh nat := λ s, (HAS_ERRORS s, s).

(** [$(command 2>&1)] with [$?] *)
Definition capture (host : Host) (command : string) : Sh Ran := λ s,
  (exec host command,
   {| HAS_ERRORS := HAS_ERRORS s; stdout := stdout s; stderr := stderr s;
      commands := commands s ++ [command] |}).

(** One of the four blocks of the script; they differ in the command and
    in the texts only. *)
Definition check (host : Host) (running command failed passed name : string)
  : Sh unit :=
  echo running;;
  ran ← capture host command;
  (if decide (exit_status ran ≠ 0)
   then set_HAS_ERRORS 1;; echo failed;; echo_err (output ran)
   else echo passed);;
  echo ("⏱️  " +:+ name +:+ " took " +:+ elapsed host command +:+ "s");;
  echo "".

(** The script; its result is its exit code. *)
Definition hook (host : Host) : Sh nat :=
  echo "🔍 Running code quality checks...";;
  echo "";;
  set_HAS_ERRORS 0;;
  check host "📋 Running TypeScript type checking..." "npm run check"
    "❌ TypeScript type checking failed" "✅ TypeScript type checking passed"
    "TypeScript check";;
  check host "🧪 Running unit tests..." "npx vitest run"
    "❌ Unit tests failed" "✅ Unit tests passed" "Unit tests";;
  check host "🔍 Running ESLint with auto-fix..." "npm run lint:fix -- --quiet"
    "❌ ESLint found unfixable issues"
    "✅ ESLint passed (auto-fixed where possible)" "ESLint";;
  check host "💅 Running Prettier check..." "npm run format"
    "❌ Prettier formatting issues found" "✅ Prettier formatting is correct"
    "Prettier check";;
  errors ← get_HAS_ERRORS;
  (if decide (errors = 0) then echo "✨ All checks passed!"
   else echo "⚠️  Some checks failed. Please review the errors above.");;
  errors ← get_HAS_ERRORS;
  if decide (errors ≠ 0) then mret 2 else mret 0.

(** The shell when the script starts. *)
Definition shell_start : Shell :=
  {| HAS_ERRORS := 0; stdout := []; stderr := []; commands := [] |}.

(** The commands of the four checks, in the order of the script. *)
Definition checks : list string :=
  ["npm run check"; "npx vitest run"; "npm run lint:fix -- --quiet";
   "npm run format"].

(** Whether a command fails on the host: [[ $? -ne 0 ]]. *)
Definition hook_failed (host : Host) (command : string) : bool :=
  bool_decide (exit_status (exec host command) ≠ 0).

(** A host on which the tests fail and the linter fails. *)
Definition failing_host : Host :=
  {| exec := λ command,
       if decide (command = "npx vitest run")
       then {| output := "1 failed"; exit_status := 1 |}
       else if decide (command = "npm run lint:fix -- --quiet")
       then {| output := "2 problems"; exit_status := 2 |}
       else {| output := "ok"; exit_status := 0 |};
     elapsed := λ _, "0.10" |}.

(** * Properties *)

(** ** The type guard *)

Lemma isValidTheme_str (t : Theme) : isValidTheme (Some (str t)) = true.
Proof. by destruct t. Qed.

Lemma isValidTheme_true (value : option string) :
  isValidTheme value = true ↔ ∃ t, value = Some (str t).
Proof.
  unfold isValidTheme. rewrite orb_true_iff, !bool_decide_eq_true. split.
  - intros [-> | ->]; [by exists dark | by exists light].
  - intros [[] ->]; auto.
Qed.

(** The guard accepts exactly the strings [narrow] maps back to themselves. *)
Lemma isValidTheme_narrow (value : option string) :
  isValidTheme value = true → value = Some (str (narrow value)).
Proof. rewrite isValidTheme_true. by intros [[] ->]. Qed.

Lemma narrow_str (t : Theme) : narrow (Some (str t)) = t.
Proof. by destruct t. Qed.

Lemma str_inj (t u : Theme) : str t = str u → t = u.
Proof. by destruct t, u. Qed.

Lemma other_involutive (t : Theme) : other (other t) = t.
Proof. by destruct t. Qed.

Lemma other_neq (t : Theme) : other t ≠ t.
Proof. by destruct t. Qed.

(** ** The class list *)

Lemma str_marker (t : Theme) : str t ∈ ["light"; "dark"].
Proof. destruct t; set_solver. Qed.

Lemma markers_removed (l : list string) :
  filter (λ c, c ∈ ["light"; "dark"]) (filter (λ c, c ∉ ["light"; "dark"]) l) = [].
Proof.
  induction l as [|c l IH]; [done|].
  rewrite (filter_cons (λ c, c ∉ _)). case_decide as Hc; [|done].
  rewrite filter_cons. by case_decide.
Qed.

(** The two class-list calls of the effect leave the other classes in
    place and put the marker of the theme last. *)
Lemma effect_unfold (t : Theme) (w : Browser) :
  effect t w =
  setItem "theme" (str t)
    (set_classList (filter (λ c, c ∉ ["light"; "dark"]) (classList w) ++ [str t]) w).
Proof.
  unfold effect, mbind, JS_bind, classList_remove, classList_add. simpl.
  rewrite bool_decide_eq_false_2; [done|].
  rewrite list_elem_of_filter. intros [Hn _]. apply Hn, str_marker.
Qed.

Lemma classList_setItem (key v : string) (w : Browser) :
  classList (setItem key v w).2 = classList w.
Proof. unfold setItem. by destruct (status w). Qed.

Lemma status_setItem (key v : string) (w : Browser) :
  status (setItem key v w).2 = status w.
Proof. unfold setItem. by destruct (status w) eqn:Hs. Qed.

Lemma markers_effect (t : Theme) (w : Browser) :
  markers (effect t w).2 = [str t].
Proof.
  rewrite effect_unfold. unfold markers. rewrite classList_setItem. simpl.
  rewrite filter_app, markers_removed, filter_cons. simpl.
  case_decide as Hm; [done|]. destruct Hm. apply str_marker.
Qed.

Lemma status_effect (t : Theme) (w : Browser) :
  status (effect t w).2 = status w.
Proof. rewrite effect_unfold. by rewrite status_setItem. Qed.

(** With storage available the effect returns, and stores the theme. *)
Lemma effect_available (t : Theme) (w : Browser) :
  status w = Available →
  ∃ w', effect t w = (Normal (), w')
        ∧ items w' = <["theme" := str t]> (items w)
        ∧ written w' = written w ++ [("theme", str t)]
        ∧ status w' = Available.
Proof.
  intros Hs. rewrite effect_unfold. unfold setItem. simpl. rewrite Hs.
  eexists. by split; [reflexivity|].
Qed.

(** Without it the exception of [setItem] leaves the effect, and storage
    is as it was. *)
Lemma effect_unavailable (t : Theme) (w : Browser) :
  status w ≠ Available →
  ∃ w', effect t w =
          (Throw (if decide (status w = Full) then QuotaExceededError
                  else SecurityError), w')
        ∧ items w' = items w ∧ written w' = written w.
Proof.
  intros Hs. rewrite effect_unfold. unfold setItem. simpl.
  destruct (status w); [done| |]; by eexists.
Qed.

(** ** The hooks *)

Lemma settled_idle (h : Hooks) : settled h ↔ h = idle (theme h).
Proof.
  split.
  - intros [Hq Hd]. destruct h as [t q d]. simpl in *. by subst.
  - intros ->. by split.
Qed.

Lemma useState_setTheme (action : Theme → Theme) (h : Hooks) :
  useState (setTheme action h) = action (useState h).
Proof. unfold useState, setTheme. simpl. by rewrite fold_left_app. Qed.

Lemma useState_toggleTheme (h : Hooks) :
  useState (toggleTheme h) = other (useState h).
Proof.
  unfold toggleTheme. rewrite useState_setTheme. by destruct (useState h).
Qed.

Lemma iter_other (n : nat) (t : Theme) :
  Nat.iter n other t = if Nat.even n then t else other t.
Proof.
  induction n as [|n IH]; [done|].
  rewrite Nat.even_succ, <- Nat.negb_even. simpl. rewrite IH.
  destruct (Nat.even n); simpl; [done | apply other_involutive].
Qed.

(** A render that changes the dependency runs the effect for the new
    theme and then settles. *)
Lemma update_changed (h : Hooks) :
  deps h ≠ Some (useState h) →
  update h = (effect (useState h);; mret (idle (useState h))).
Proof.
  intros Hd. unfold update, useEffect, render. simpl. by case_decide.
Qed.

(** A render that does not change it runs nothing. *)
Lemma update_unchanged (h : Hooks) :
  deps h = Some (useState h) → update h = mret (idle (useState h)).
Proof.
  intros Hd. unfold update, useEffect, render. simpl.
  case_decide; [by rewrite Hd | done].
Qed.

(** The theme a render shows is the one the next render shows as well. *)
Lemma update_useState (h h' : Hooks) (w w' : Browser) :
  update h w = (Normal h', w') → h' = idle (useState h).
Proof.
  destruct (decide (deps h = Some (useState h))) as [Hd|Hd].
  - rewrite update_unchanged by done. by intros [= <- _].
  - rewrite update_changed by done. unfold mbind, JS_bind.
    destruct (effect _ w) as [[[]|e] w1]; [by intros [= <- _] | done].
Qed.

Lemma update_available (h : Hooks) (w : Browser) :
  status w = Available →
  ∃ w', update h w = (Normal (idle (useState h)), w') ∧ status w' = Available.
Proof.
  intros Hs. destruct (decide (deps h = Some (useState h))) as [Hd|Hd].
  - rewrite update_unchanged by done. by exists w.
  - rewrite update_changed by done. unfold mbind, JS_bind.
    destruct (effect_available (useState h) w Hs) as (w' & -> & _ & _ & Hs').
    by exists w'.
Qed.

Lemma click_settled (h : Hooks) :
  settled h →
  click h = (effect (other (theme h));; mret (idle (other (theme h)))).
Proof.
  intros [Hq Hd]. unfold click.
  assert (useState (toggleTheme h) = other (theme h)) as Hu.
  { rewrite useState_toggleTheme. unfold useState. by rewrite Hq. }
  rewrite update_changed; rewrite Hu; [done|].
  simpl. rewrite Hd. intros [= Heq]. by destruct (theme h).
Qed.

Lemma click_available (h : Hooks) (w : Browser) :
  settled h → status w = Available →
  ∃ w', click h w = (Normal (idle (other (theme h))), w')
        ∧ items w' = <["theme" := str (other (theme h))]> (items w)
        ∧ written w' = written w ++ [("theme", str (other (theme h)))]
        ∧ markers w' = [str (other (theme h))]
        ∧ status w' = Available.
Proof.
  intros Hh Hs. rewrite click_settled by done. unfold mbind, JS_bind.
  pose proof (markers_effect (other (theme h)) w) as Hm.
  destruct (effect_available (other (theme h)) w Hs) as (w' & He & Hi & Hw & Hs').
  rewrite He in Hm |- *. by exists w'.
Qed.

Lemma click_unavailable (h : Hooks) (w : Browser) :
  settled h → status w ≠ Available →
  ∃ w', click h w =
          (Throw (if decide (status w = Full) then QuotaExceededError
                  else SecurityError), w')
        ∧ items w' = items w ∧ written w' = written w
        ∧ markers w' = [str (other (theme h))].
Proof.
  intros Hh Hs. rewrite click_settled by done. unfold mbind, JS_bind.
  pose proof (markers_effect (other (theme h)) w) as Hm.
  destruct (effect_unavailable (other (theme h)) w Hs) as (w' & He & Hi & Hw).
  rewrite He in Hm |- *. by exists w'.
Qed.

Lemma clicks_available (n : nat) (h : Hooks) (w : Browser) :
  settled h → status w = Available →
  ∃ w', clicks n h w = (Normal (idle (Nat.iter n other (theme h))), w')
        ∧ written w' = written w ++ toggle_writes n (theme h)
        ∧ status w' = Available.
Proof.
  revert h w. induction n as [|n IH]; intros h w Hh Hs.
  - exists w. simpl. rewrite app_nil_r. by rewrite <- (proj1 (settled_idle h)).
  - destruct (click_available h w Hh Hs) as (w1 & Hc & _ & Hw1 & _ & Hs1).
    destruct (IH (idle (other (theme h))) w1) as (w2 & Hn & Hw2 & Hs2);
      [by apply settled_idle | done |].
    exists w2. simpl clicks. unfold mbind, JS_bind. rewrite Hc, Hn.
    split_and!; [|by rewrite Hw2, Hw1, <- app_assoc|done].
    simpl theme. by rewrite <- Nat.iter_succ_r.
Qed.

(** ** Initialisation *)

Lemma initializer_stored (w : Browser) (t : Theme) :
  status w ≠ Blocked → items w !! "theme" = Some (str t) →
  initializer (Some w) = Normal t.
Proof.
  intros Hs Hi. unfold initializer, getItem.
  destruct (status w); [| |done]; simpl; rewrite Hi; by destruct t.
Qed.

Lemma initializer_fallback (w : Browser) :
  status w ≠ Blocked → isValidTheme (items w !! "theme") = false →
  initializer (Some w) =
  Normal (if bool_decide ("dark" ∈ classList w) then dark else light).
Proof.
  intros Hs Hi. unfold initializer, getItem.
  destruct (status w); [| |done]; simpl; by rewrite Hi.
Qed.

Lemma initializer_returns (w : Browser) :
  status w ≠ Blocked → ∃ t, initializer (Some w) = Normal t.
Proof.
  intros Hs. destruct (isValidTheme (items w !! "theme")) eqn:Hv.
  - apply isValidTheme_true in Hv as [t Ht]. exists t.
    by apply initializer_stored.
  - eexists. by apply initializer_fallback.
Qed.

Lemma mount_available (w : Browser) :
  status w = Available →
  ∃ t w', initializer (Some w) = Normal t
          ∧ mount w = (Normal (idle t), w')
          ∧ items w' = <["theme" := str t]> (items w)
          ∧ written w' = written w ++ [("theme", str t)]
          ∧ markers w' = [str t]
          ∧ status w' = Available.
Proof.
  intros Hs. destruct (initializer_returns w) as [t Ht]; [by rewrite Hs|].
  pose proof (markers_effect t w) as Hm.
  destruct (effect_available t w Hs) as (w' & He & Hi & Hw & Hs').
  exists t, w'. unfold mount. rewrite Ht. unfold useEffect. simpl.
  unfold mbind, JS_bind. rewrite He in Hm |- *. done.
Qed.

(** A mounted provider is settled; the document and storage agree with
    its theme. *)
Lemma reachable_invariant (h : Hooks) (w : Browser) :
  reachable h w →
  settled h ∧ status w = Available
  ∧ markers w = [str (theme h)]
  ∧ items w !! "theme" = Some (str (theme h)).
Proof.
  induction 1 as [w h w' Hm | h w h' w' _ (Hh & Hs & _) Hc].
  - destruct (status w) eqn:Hs.
    + destruct (mount_available w Hs) as (t & w1 & _ & Hm1 & Hi & _ & Hk & Hs1).
      rewrite Hm1 in Hm. injection Hm as <- <-.
      split_and!; [by apply settled_idle | done | done |].
      rewrite Hi. apply lookup_insert_eq.
    + exfalso. unfold mount in Hm.
      destruct (initializer (Some w)) as [t|e]; [|done].
      unfold useEffect in Hm. simpl in Hm. unfold mbind, JS_bind in Hm.
      destruct (effect_unavailable t w) as (w1 & He & _); [by rewrite Hs|].
      by rewrite He in Hm.
    + exfalso. unfold mount, initializer, getItem in Hm. by rewrite Hs in Hm.
  - destruct (click_available h w Hh Hs) as (w1 & Hc1 & Hi & _ & Hk & Hs1).
    rewrite Hc1 in Hc. injection Hc as <- <-.
    split_and!; [by apply settled_idle | done | done |].
    rewrite Hi. apply lookup_insert_eq.
Qed.

Lemma effect_normal (t : Theme) (w w' : Browser) :
  effect t w = (Normal (), w') →
  status w = Available ∧ items w' = <["theme" := str t]> (items w).
Proof.
  intros He. destruct (decide (status w = Available)) as [Hs|Hs].
  - destruct (effect_available t w Hs) as (w1 & He1 & Hi & _).
    rewrite He1 in He. by injection He as <-.
  - destruct (effect_unavailable t w Hs) as (w1 & He1 & _).
    by rewrite He1 in He.
Qed.

Lemma markers_classList (t : Theme) (w : Browser) :
  markers w = [str t] →
  str t ∈ classList w ∧ str (other t) ∉ classList w.
Proof.
  intros Hm. split.
  - assert (str t ∈ markers w) as Hin by (rewrite Hm; set_solver).
    unfold markers in Hin. by apply list_elem_of_filter in Hin as [_ ?].
  - intros Hin. assert (str (other t) ∈ markers w) as Ho.
    { unfold markers. apply list_elem_of_filter. split; [apply str_marker|done]. }
    rewrite Hm in Ho. apply list_elem_of_singleton, str_inj in Ho.
    by apply other_neq in Ho.
Qed.

Lemma toggles_cons_Toggle (events : list Event) :
  toggles (Toggle :: events) = S (toggles events).
Proof. unfold toggles. rewrite filter_cons. by case_decide. Qed.

Lemma toggles_cons_Render (events : list Event) :
  toggles (Render :: events) = toggles events.
Proof. unfold toggles. rewrite filter_cons. by case_decide. Qed.

Lemma run_available (events : list Event) (h : Hooks) (w : Browser) :
  status w = Available →
  ∃ h' w', run events h w = (Normal h', w')
           ∧ useState h' = Nat.iter (toggles events) other (useState h)
           ∧ status w' = Available.
Proof.
  revert h w. induction events as [|[] events IH]; intros h w Hs.
  - by exists h, w.
  - destruct (IH (toggleTheme h) w Hs) as (h' & w' & Hr & Hu & Hs').
    exists h', w'. rewrite toggles_cons_Toggle, Nat.iter_succ_r.
    by rewrite <- useState_toggleTheme.
  - destruct (update_available h w Hs) as (w1 & Hu1 & Hs1).
    destruct (IH (idle (useState h)) w1 Hs1) as (h' & w' & Hr & Hu & Hs').
    exists h', w'. rewrite toggles_cons_Render. simpl run.
    unfold mbind, JS_bind. by rewrite Hu1.
Qed.

(** * The claims *)

(** C1: [toggleTheme] flips the theme, dark to light and light to dark. It
    is a function on the hooks' state, so the call itself cannot fail. The
    render that follows the change runs the effect for the new theme, that
    is the marker synchronisation and then the storage write; with storage
    available both have happened when it returns. *)
Theorem toggleTheme_flips (h : Hooks) (w : Browser) :
  settled h →
  (theme h = dark → useState (toggleTheme h) = light)
  ∧ (theme h = light → useState (toggleTheme h) = dark)
  ∧ click h w =
      match effect (useState (toggleTheme h)) w with
      | (Normal _, w') => (Normal (idle (useState (toggleTheme h))), w')
      | (Throw e, w') => (Throw e, w')
      end
  ∧ (status w = Available →
     ∃ w', click h w = (Normal (idle (useState (toggleTheme h))), w')
           ∧ markers w' = [str (useState (toggleTheme h))]
           ∧ items w' !! "theme" = Some (str (useState (toggleTheme h)))
           ∧ written w' = written w ++ [("theme", str (useState (toggleTheme h)))]).
Proof.
  intros Hh.
  assert (useState (toggleTheme h) = other (theme h)) as ->.
  { rewrite useState_toggleTheme. unfold useState. by rewrite (proj1 Hh). }
  split_and!.
  - by intros ->.
  - by intros ->.
  - by rewrite click_settled.
  - intros Hs.
    destruct (click_available h w Hh Hs) as (w' & Hc & Hi & Hw & Hm & _).
    exists w'. split_and!; [done | done | | done].
    rewrite Hi. apply lookup_insert_eq.
Qed.

Lemma toggleTheme_flips_witness :
  settled (idle dark)
  ∧ useState (toggleTheme (idle dark)) = light
  ∧ ∃ w', click (idle dark) first_visit = (Normal (idle light), w')
          ∧ markers w' = ["light"]
          ∧ items w' !! "theme" = Some "light"
          ∧ written w' = [("theme", "light")].
Proof.
  assert (settled (idle dark)) as Hh by (by split).
  destruct (toggleTheme_flips (idle dark) first_visit Hh) as (Hd & _ & _ & Ha).
  split; [exact Hh|]. split; [apply Hd; reflexivity|].
  apply Ha. reflexivity.
Defined.

(** C2: the initialiser reads the value stored under ["theme"] first. The
    strings ["dark"] and ["light"] are adopted whatever the class list is;
    any other value, and no value, is rejected, and the theme is then dark
    if the root carries the class ["dark"] and light otherwise. *)
Theorem initializer_validates (w : Browser) :
  status w ≠ Blocked →
  (items w !! "theme" = Some "dark" → initializer (Some w) = Normal dark)
  ∧ (items w !! "theme" = Some "light" → initializer (Some w) = Normal light)
  ∧ (items w !! "theme" ≠ Some "dark" → items w !! "theme" ≠ Some "light" →
     isValidTheme (items w !! "theme") = false
     ∧ ("dark" ∈ classList w → initializer (Some w) = Normal dark)
     ∧ ("dark" ∉ classList w → initializer (Some w) = Normal light)).
Proof.
  intros Hs. split_and!.
  - by apply (initializer_stored w dark).
  - by apply (initializer_stored w light).
  - intros Hd Hl.
    assert (isValidTheme (items w !! "theme") = false) as Hv.
    { unfold isValidTheme. by rewrite !bool_decide_eq_false_2. }
    split; [done|]. rewrite (initializer_fallback w Hs Hv).
    split; intros Hc.
    + by rewrite bool_decide_eq_true_2.
    + by rewrite bool_decide_eq_false_2.
Qed.

Lemma initializer_validates_witness :
  status legacy_visit ≠ Blocked
  ∧ items legacy_visit !! "theme" = Some "blue"
  ∧ isValidTheme (Some "blue") = false
  ∧ initializer (Some legacy_visit) = Normal dark.
Proof.
  assert (status legacy_visit ≠ Blocked) as Hs by (simpl; discriminate).
  assert (items legacy_visit !! "theme" = Some "blue") as Hi by reflexivity.
  destruct (initializer_validates legacy_visit Hs) as (_ & _ & Hf).
  destruct Hf as (Hv & Hd & _).
  - rewrite Hi. discriminate.
  - rewrite Hi. discriminate.
  - rewrite Hi in Hv. split_and!; [exact Hs | exact Hi | exact Hv |].
    apply Hd. simpl. set_solver.
Defined.

(** C3: when a render changes the theme, the root carries afterwards
    exactly one of the two markers, the one of the new theme. This holds
    as soon as the class list calls of the effect are done, whether the
    storage write that follows them returns or throws. *)
Theorem markers_after_change (h : Hooks) (w : Browser) :
  deps h = Some (theme h) → useState h ≠ theme h →
  markers (update h w).2 = [str (useState h)]
  ∧ (str (useState h) ∈ classList (update h w).2)
  ∧ (str (other (useState h)) ∉ classList (update h w).2)
  ∧ ∀ h', (update h w).1 = Normal h' → theme h' = useState h.
Proof.
  intros Hd Hu.
  assert (markers (update h w).2 = [str (useState h)]) as Hm.
  { rewrite update_changed by (rewrite Hd; congruence).
    pose proof (markers_effect (useState h) w) as Hm.
    unfold mbind, JS_bind. by destruct (effect _ w) as [[[]|e] w1]. }
  split; [done|]. split; [by apply markers_classList|].
  split; [by apply markers_classList|].
  intros h' Hn. destruct (update h w) as [r w'] eqn:Hup. simpl in Hn. subst r.
  by rewrite (update_useState _ _ _ _ Hup).
Qed.

Lemma markers_after_change_witness :
  markers (update (toggleTheme (idle dark)) legacy_visit).2 = ["light"]
  ∧ markers (update (toggleTheme (idle dark)) quota_exceeded).2 = ["light"].
Proof.
  split.
  - apply (markers_after_change (toggleTheme (idle dark)) legacy_visit);
      [reflexivity | discriminate].
  - apply (markers_after_change (toggleTheme (idle dark)) quota_exceeded);
      [reflexivity | discriminate].
Defined.

(** C4: when a render that changes the theme returns, storage holds under
    ["theme"] the string of the new theme, whatever it held before, and an
    initialiser that later reads this storage, on a page with any class
    list, returns that theme. With storage available the render returns. *)
Theorem storage_round_trip (h : Hooks) (w : Browser) :
  deps h = Some (theme h) → useState h ≠ theme h →
  (status w = Available →
   ∃ w', update h w = (Normal (idle (useState h)), w'))
  ∧ ∀ h' w', update h w = (Normal h', w') →
      theme h' = useState h
      ∧ items w' !! "theme" = Some (str (theme h'))
      ∧ ∀ reload, items reload = items w' → status reload ≠ Blocked →
          initializer (Some reload) = Normal (theme h').
Proof.
  intros Hd Hu. split.
  - intros Hs. destruct (update_available h w Hs) as (w' & Hup & _). eauto.
  - intros h' w' Hup. rewrite (update_useState _ _ _ _ Hup). simpl.
    rewrite update_changed in Hup by (rewrite Hd; congruence).
    unfold mbind, JS_bind in Hup.
    destruct (effect (useState h) w) as [[[]|e] w1] eqn:He; [|done].
    injection Hup as _ <-. apply effect_normal in He as [_ Hi].
    assert (items w1 !! "theme" = Some (str (useState h))) as Hl.
    { rewrite Hi. apply lookup_insert_eq. }
    split_and!; [done | done |].
    intros reload Hr Hs. apply initializer_stored; [done | by rewrite Hr].
Qed.

Lemma storage_round_trip_witness :
  ∃ w', update (toggleTheme (idle dark)) legacy_visit = (Normal (idle light), w')
        ∧ items w' !! "theme" = Some "light"
        ∧ initializer
            (Some {| items := items w'; status := Available;
                     classList := ["dark"]; written := [] |}) = Normal light.
Proof.
  destruct (storage_round_trip (toggleTheme (idle dark)) legacy_visit)
    as [Hr Hc]; [reflexivity | discriminate |].
  destruct (Hr eq_refl) as [w' Hup]. exists w'.
  destruct (Hc _ _ Hup) as (_ & Hi & Hinit).
  split; [exact Hup|]. split; [exact Hi|].
  apply Hinit; [reflexivity | discriminate].
Defined.

(** C5: over any sequence of [toggleTheme] calls, rendered or not in
    between, the theme is the initial one after an even number of calls
    and the other variant after an odd number. *)
Theorem toggleTheme_parity (n : nat) (events : list Event) (h : Hooks) (w : Browser) :
  useState (Nat.iter n toggleTheme h) =
    (if Nat.even n then useState h else other (useState h))
  ∧ (status w = Available →
     ∃ h' w', run events h w = (Normal h', w')
       ∧ useState h' =
           if Nat.even (toggles events) then useState h else other (useState h)).
Proof.
  split.
  - rewrite <- iter_other. induction n as [|n IH]; [done|].
    simpl. by rewrite useState_toggleTheme, IH.
  - intros Hs. destruct (run_available events h w Hs) as (h' & w' & Hr & Hu & _).
    exists h', w'. by rewrite <- iter_other.
Qed.

Lemma toggleTheme_parity_witness :
  useState (Nat.iter 3 toggleTheme (idle dark)) = light
  ∧ ∃ h' w', run [Toggle; Render; Toggle; Toggle; Render] (idle dark) first_visit
               = (Normal h', w')
             ∧ useState h' = light.
Proof.
  destruct (toggleTheme_parity 3 [Toggle; Render; Toggle; Toggle; Render]
              (idle dark) first_visit) as [Hp Hr].
  split; [exact Hp|]. apply Hr. reflexivity.
Defined.

(** C6: [useTheme] throws its error when no [ThemeProvider] is above the
    consumer, and returns the value of the nearest one when there is. *)
Theorem useTheme_guard (ancestors above below : list Component) (h : Hooks) :
  (Forall (λ c, ¬ is_provider c) ancestors →
   useTheme ancestors = Throw (Error "useTheme must be used within a ThemeProvider"))
  ∧ (Forall (λ c, ¬ is_provider c) above →
     useTheme (above ++ ThemeProvider h :: below) = Normal (value h)).
Proof.
  unfold useTheme. split.
  - induction 1 as [|[h'|name] rest Hc _ IH]; [done | | done].
    by destruct Hc.
  - induction 1 as [|[h'|name] rest Hc _ IH]; [done | | done].
    by destruct Hc.
Qed.

Lemma useTheme_guard_witness :
  useTheme [Other "Nav"; Other "Layout"; Other "App"]
    = Throw (Error "useTheme must be used within a ThemeProvider")
  ∧ useTheme [Other "Nav"; Other "Layout"; ThemeProvider (idle light); Other "App"]
    = Normal (value (idle light)).
Proof.
  destruct (useTheme_guard [Other "Nav"; Other "Layout"; Other "App"]
              [Other "Nav"; Other "Layout"] [Other "App"] (idle light))
    as [Hout Hin].
  split.
  - apply Hout. repeat constructor; intros [].
  - apply Hin. repeat constructor; intros [].
Defined.

(** C7: from a settled provider whose theme is dark, two clicks of the
    toggle end in the theme dark, and they add exactly two writes to
    storage, ["light"] and then ["dark"]. *)
Theorem toggle_twice_from_dark (h : Hooks) (w : Browser) :
  settled h → theme h = dark → status w = Available →
  ∃ h' w', clicks 2 h w = (Normal h', w')
           ∧ theme h' = dark
           ∧ written w' = written w ++ [("theme", "light"); ("theme", "dark")].
Proof.
  intros Hh Ht Hs.
  destruct (clicks_available 2 h w Hh Hs) as (w' & Hc & Hw & _).
  rewrite Ht in Hc, Hw. by exists (idle dark), w'.
Qed.

Lemma toggle_twice_from_dark_witness :
  ∃ h' w', clicks 2 (idle dark) first_visit = (Normal h', w')
           ∧ theme h' = dark
           ∧ written w' = [("theme", "light"); ("theme", "dark")].
Proof.
  apply (toggle_twice_from_dark (idle dark) first_visit);
    [by split | reflexivity | reflexivity].
Defined.

(** C8: where there is no window the initialiser returns dark. *)
Theorem initializer_without_window : initializer None = Normal dark.
Proof. reflexivity. Qed.

(** C9, as the spec has it, fails: in a browser whose storage is full, a
    click on a settled dark provider does not go on with the theme light
    in memory; the exception of [setItem] leaves the effect. *)
Lemma degrades_counterexample :
  settled (idle dark)
  ∧ status quota_exceeded ≠ Available
  ∧ (click (idle dark) quota_exceeded).1 = Throw QuotaExceededError
  ∧ ¬ degrades (idle dark) quota_exceeded.
Proof.
  split_and!; [by split | discriminate | reflexivity |].
  intros (h' & w' & Hc & _). discriminate Hc.
Qed.

(** C9, amended: [toggleTheme] itself only queues the flip and throws
    nothing. When storage cannot be written, the effect of the render that
    follows is left by the exception of [setItem], which nothing in the
    provider catches: a quota error when storage is full, a security error
    when it is blocked. The markers of the new theme are on the root by
    then, and storage is as it was. *)
Theorem setItem_exception_escapes (h : Hooks) (w : Browser) :
  settled h → status w ≠ Available →
  useState (toggleTheme h) = other (theme h)
  ∧ ∃ w', click h w =
            (Throw (if decide (status w = Full) then QuotaExceededError
                    else SecurityError), w')
          ∧ markers w' = [str (other (theme h))]
          ∧ items w' = items w
          ∧ written w' = written w.
Proof.
  intros Hh Hs. split.
  - rewrite useState_toggleTheme. unfold useState. by rewrite (proj1 Hh).
  - destruct (click_unavailable h w Hh Hs) as (w' & Hc & Hi & Hw & Hm).
    by exists w'.
Qed.

Lemma setItem_exception_escapes_witness :
  useState (toggleTheme (idle dark)) = light
  ∧ ∃ w', click (idle dark) quota_exceeded = (Throw QuotaExceededError, w')
          ∧ markers w' = ["light"]
          ∧ items w' = items quota_exceeded
          ∧ written w' = [].
Proof.
  apply (setItem_exception_escapes (idle dark) quota_exceeded);
    [by split | discriminate].
Defined.

(** C10: the effect runs once when the provider mounts. In a browser with
    storage available the provider then holds the theme the initialiser
    returned, and storage holds its string under ["theme"], whatever was
    stored before; that write is the only one of the mount, and the writes
    of any later clicks follow it. *)
Theorem mount_stores_theme (n : nat) (w : Browser) :
  status w = Available →
  ∃ t h w',
    initializer (Some w) = Normal t
    ∧ mount w = (Normal h, w')
    ∧ theme h = t
    ∧ items w' !! "theme" = Some (str t)
    ∧ isValidTheme (items w' !! "theme") = true
    ∧ written w' = written w ++ [("theme", str t)]
    ∧ ∃ h'' w'', clicks n h w' = (Normal h'', w'')
        ∧ written w'' = written w ++ ("theme", str t) :: toggle_writes n t.
Proof.
  intros Hs.
  destruct (mount_available w Hs) as (t & w' & Ht & Hm & Hi & Hw & _ & Hs').
  assert (items w' !! "theme" = Some (str t)) as Hl.
  { rewrite Hi. apply lookup_insert_eq. }
  destruct (clicks_available n (idle t) w') as (w'' & Hc & Hw'' & _);
    [by apply settled_idle | done |].
  exists t, (idle t), w'. split_and!; try done.
  - rewrite Hl. apply isValidTheme_str.
  - exists (idle (Nat.iter n other t)), w''. split; [done|].
    rewrite Hw'', Hw. simpl. by rewrite <- app_assoc.
Qed.

Lemma mount_stores_theme_witness :
  ∃ t h w',
    initializer (Some legacy_visit) = Normal t
    ∧ mount legacy_visit = (Normal h, w')
    ∧ theme h = t
    ∧ items w' !! "theme" = Some (str t)
    ∧ isValidTheme (items w' !! "theme") = true
    ∧ written w' = [("theme", str t)]
    ∧ ∃ h'' w'', clicks 1 h w' = (Normal h'', w'')
        ∧ written w'' = ("theme", str t) :: toggle_writes 1 t.
Proof.
  apply (mount_stores_theme 1 legacy_visit). reflexivity.
Defined.

(** * Further properties of the provider *)

Lemma filter_unmarked_idem (l : list string) :
  filter (λ c, c ∉ ["light"; "dark"]) (filter (λ c, c ∉ ["light"; "dark"]) l)
  = filter (λ c, c ∉ ["light"; "dark"]) l.
Proof.
  induction l as [|c l IH]; [done|].
  rewrite filter_cons. case_decide as Hc; [|done].
  rewrite filter_cons. case_decide; [by rewrite IH | done].
Qed.

Lemma classList_effect (t : Theme) (w : Browser) :
  classList (effect t w).2
  = filter (λ c, c ∉ ["light"; "dark"]) (classList w) ++ [str t].
Proof. rewrite effect_unfold. by rewrite classList_setItem. Qed.

Lemma items_effect (t : Theme) (w : Browser) :
  items (effect t w).2
  = if decide (status w = Available) then <["theme" := str t]> (items w)
    else items w.
Proof.
  rewrite effect_unfold. unfold setItem. simpl.
  by destruct (status w) eqn:Hs.
Qed.

Lemma written_effect (t : Theme) (w : Browser) :
  written (effect t w).2
  = if decide (status w = Available) then written w ++ [("theme", str t)]
    else written w.
Proof.
  rewrite effect_unfold. unfold setItem. simpl.
  by destruct (status w) eqn:Hs.
Qed.

(** X1: the effect touches no class but the two markers. The other classes
    of the root stay, in their order, and the marker of the theme comes
    last. *)
Theorem effect_keeps_other_classes (t : Theme) (w : Browser) (c : string) :
  classList (effect t w).2
    = filter (λ c, c ∉ ["light"; "dark"]) (classList w) ++ [str t]
  ∧ (c ≠ "light" → c ≠ "dark" →
     (c ∈ classList (effect t w).2 ↔ c ∈ classList w)).
Proof.
  split; [apply classList_effect|]. intros Hl Hd.
  rewrite classList_effect, elem_of_app, list_elem_of_filter.
  rewrite list_elem_of_singleton. split.
  - intros [[_ ?]| ->]; [done|]. by destruct t.
  - intros Hc. left. split; [|done].
    rewrite !not_elem_of_cons. split_and!; [done | done | apply not_elem_of_nil].
Qed.

Lemma effect_keeps_other_classes_witness :
  classList (effect light legacy_visit).2 = ["antialiased"; "light"]
  ∧ ("antialiased" ∈ classList (effect light legacy_visit).2
     ↔ "antialiased" ∈ classList legacy_visit).
Proof.
  destruct (effect_keeps_other_classes light legacy_visit "antialiased")
    as [Hc Hk].
  split; [exact Hc|]. apply Hk; discriminate.
Defined.

(** X2: the effect touches no key of storage but ["theme"], and it leaves
    the availability of storage as it is. *)
Theorem effect_keeps_other_keys (t : Theme) (w : Browser) (key : string) :
  key ≠ "theme" →
  items (effect t w).2 !! key = items w !! key
  ∧ status (effect t w).2 = status w.
Proof.
  intros Hk. split; [|apply status_effect].
  rewrite items_effect. case_decide; [|done]. by rewrite lookup_insert_ne.
Qed.

Lemma effect_keeps_other_keys_witness :
  items (effect dark
           {| items := {["lang" := "en"]}; status := Available;
              classList := []; written := [] |}).2 !! "lang" = Some "en".
Proof.
  destruct (effect_keeps_other_keys dark
              {| items := {["lang" := "en"]}; status := Available;
                 classList := []; written := [] |} "lang") as [Hi _];
    [discriminate|].
  rewrite Hi. reflexivity.
Defined.

(** X3: running the effect a second time for the same theme changes
    neither the class list nor the contents of storage. *)
Theorem effect_idempotent (t : Theme) (w : Browser) :
  classList (effect t (effect t w).2).2 = classList (effect t w).2
  ∧ items (effect t (effect t w).2).2 = items (effect t w).2.
Proof.
  split.
  - rewrite !classList_effect, filter_app, filter_unmarked_idem.
    rewrite filter_cons. case_decide as Hm; [|by rewrite app_nil_r].
    destruct Hm. apply str_marker.
  - rewrite (items_effect t (effect t w).2), status_effect, items_effect.
    case_decide; [|done]. apply insert_insert_eq.
Qed.

(** X4: the effect keeps the class list free of repetitions. *)
Theorem effect_NoDup (t : Theme) (w : Browser) :
  NoDup (classList w) → NoDup (classList (effect t w).2).
Proof.
  intros Hn. rewrite classList_effect. apply NoDup_app. split_and!.
  - by apply NoDup_filter.
  - intros c [Hc _]%list_elem_of_filter ->%list_elem_of_singleton.
    apply Hc, str_marker.
  - apply NoDup_singleton.
Qed.

Lemma effect_NoDup_witness :
  NoDup (classList legacy_visit)
  ∧ NoDup (classList (effect dark legacy_visit).2).
Proof.
  assert (NoDup (classList legacy_visit)) as Hn.
  { simpl. apply NoDup_cons. split; [|apply NoDup_singleton].
    by intros ?%list_elem_of_singleton. }
  split; [exact Hn|]. exact (effect_NoDup dark legacy_visit Hn).
Defined.

Lemma useState_idle (t : Theme) : useState (idle t) = t.
Proof. reflexivity. Qed.

Lemma update_idle (t : Theme) (w : Browser) :
  update (idle t) w = (Normal (idle t), w).
Proof. by rewrite update_unchanged. Qed.

Lemma iter_toggleTheme (n : nat) (h : Hooks) :
  useState (Nat.iter n toggleTheme h) = Nat.iter n other (useState h)
  ∧ deps (Nat.iter n toggleTheme h) = deps h.
Proof.
  induction n as [|n [IHu IHd]]; [done|]. simpl.
  by rewrite useState_toggleTheme, IHu.
Qed.

(** X5: [toggleTheme] calls that reach the same render cancel in pairs.
    After an even number of calls, none included, the render changes
    nothing and runs no effect: the browser is as before and nothing is
    written. After an odd number it does what a single click does. *)
Theorem batched_toggles (n : nat) (h : Hooks) (w : Browser) :
  settled h →
  update (Nat.iter n toggleTheme h) w =
    if Nat.even n then (Normal h, w) else click h w.
Proof.
  intros Hh. pose proof Hh as [Hq Hd].
  destruct (iter_toggleTheme n h) as [Hu Hdn].
  assert (useState h = theme h) as Hth by (unfold useState; by rewrite Hq).
  rewrite iter_other, Hth in Hu.
  destruct (Nat.even n).
  - rewrite update_unchanged by (by rewrite Hdn, Hu).
    rewrite Hu. by rewrite <- (proj1 (settled_idle h)).
  - rewrite click_settled by done.
    rewrite update_changed; rewrite Hu; [done|].
    rewrite Hdn, Hd. intros [= Heq]. by destruct (theme h).
Qed.

Lemma batched_toggles_witness :
  update (toggleTheme (toggleTheme (idle dark))) first_visit
    = (Normal (idle dark), first_visit)
  ∧ update (toggleTheme (toggleTheme (toggleTheme (idle dark)))) first_visit
    = click (idle dark) first_visit.
Proof.
  assert (settled (idle dark)) as Hh by (by split).
  split.
  - exact (batched_toggles 2 (idle dark) first_visit Hh).
  - exact (batched_toggles 3 (idle dark) first_visit Hh).
Defined.

Lemma written_update (h : Hooks) (w : Browser) :
  written (update h w).2 = written w
  ∨ written (update h w).2 = written w ++ [("theme", str (useState h))].
Proof.
  destruct (decide (deps h = Some (useState h))) as [Hd|Hd].
  - left. by rewrite update_unchanged.
  - rewrite update_changed by done. unfold mbind, JS_bind.
    pose proof (written_effect (useState h) w) as Hw.
    destruct (effect _ w) as [[[]|e] w1]; simpl in *; rewrite Hw;
      case_decide; auto.
Qed.

(** X6: whatever calls and renders happen, and whether the run ends or
    throws, every write it makes to storage has the key ["theme"] and a
    value the type guard accepts; earlier entries of storage's history are
    not removed. *)
Theorem writes_are_themes (events : list Event) (h : Hooks) (w : Browser) :
  ∃ new, written (run events h w).2 = written w ++ new
         ∧ Forall (λ kv, kv.1 = "theme" ∧ isValidTheme (Some kv.2) = true) new.
Proof.
  revert h w. induction events as [|[] events IH]; intros h w.
  - exists []. by rewrite app_nil_r.
  - apply IH.
  - simpl run. unfold mbind, JS_bind.
    pose proof (written_update h w) as Hw.
    destruct (update h w) as [[h1|e] w1]; simpl in Hw.
    + destruct (IH h1 w1) as (new & Hn & Hf). destruct Hw as [Hw|Hw].
      * exists new. by rewrite Hn, Hw.
      * exists (("theme", str (useState h)) :: new).
        rewrite Hn, Hw, <- app_assoc. split; [done|].
        constructor; [|done]. split; [done | apply isValidTheme_str].
    + destruct Hw as [Hw|Hw].
      * exists []. by rewrite app_nil_r.
      * exists [("theme", str (useState h))]. split; [done|].
        repeat constructor. apply isValidTheme_str.
Qed.

(** X7: a stored preference wins over the document. Mounting in a browser
    whose storage holds a valid theme gives a provider with that theme,
    puts its marker on the root in place of any other, and leaves the
    contents of storage as they were. *)
Theorem mount_adopts_stored (t : Theme) (w : Browser) :
  status w = Available → items w !! "theme" = Some (str t) →
  ∃ w', mount w = (Normal (idle t), w')
        ∧ markers w' = [str t]
        ∧ items w' = items w.
Proof.
  intros Hs Hi.
  destruct (mount_available w Hs) as (t' & w' & Ht & Hm & Hi' & _ & Hk & _).
  rewrite (initializer_stored w t) in Ht by (by rewrite ?Hs).
  injection Ht as <-. exists w'. split_and!; [done | done |].
  rewrite Hi'. by apply insert_id.
Qed.

Lemma mount_adopts_stored_witness :
  ∃ w', mount {| items := {["theme" := "light"]}; status := Available;
                 classList := ["dark"]; written := [] |}
          = (Normal (idle light), w')
        ∧ markers w' = ["light"]
        ∧ items w' = {["theme" := "light"]}.
Proof.
  apply (mount_adopts_stored light); reflexivity.
Defined.

(** X8: in every state a mounted provider reaches by clicks, the provider
    is settled and its theme is the one marker on the root and the value
    stored under ["theme"]. A reload, that is a mount on a page with the
    same storage and any class list, gives the same theme back. *)
Theorem theme_survives_reload (h : Hooks) (w reload : Browser) :
  reachable h w →
  settled h
  ∧ markers w = [str (theme h)]
  ∧ items w !! "theme" = Some (str (theme h))
  ∧ (items reload = items w → status reload = Available →
     ∃ w', mount reload = (Normal (idle (theme h)), w')
           ∧ markers w' = [str (theme h)]
           ∧ items w' = items w).
Proof.
  intros (Hh & _ & Hm & Hi)%reachable_invariant.
  split_and!; [done | done | done |]. intros Hr Hs.
  destruct (mount_available reload Hs) as (t' & w' & Ht & Hmt & Hi' & _ & Hk & _).
  rewrite (initializer_stored reload (theme h)) in Ht
    by (by rewrite ?Hs, ?Hr).
  injection Ht as <-. exists w'. split_and!; [done | done |].
  rewrite Hi', Hr. by apply insert_id.
Qed.

Lemma theme_survives_reload_witness :
  reachable (idle light) (click (idle dark) (mount legacy_visit).2).2
  ∧ ∃ w', mount {| items := items (click (idle dark) (mount legacy_visit).2).2;
                   status := Available; classList := ["dark"];
                   written := [] |}
            = (Normal (idle light), w')
          ∧ markers w' = ["light"].
Proof.
  assert (reachable (idle light) (click (idle dark) (mount legacy_visit).2).2)
    as Hr.
  { apply (reachable_click (idle dark) (mount legacy_visit).2).
    - by apply (reachable_mount legacy_visit).
    - reflexivity. }
  split; [exact Hr|].
  destruct (theme_survives_reload _ _
              {| items := items (click (idle dark) (mount legacy_visit).2).2;
                 status := Available; classList := ["dark"]; written := [] |}
              Hr) as (_ & _ & _ & Hre).
  destruct (Hre eq_refl eq_refl) as (w' & Hm & Hk & _).
  exists w'. split; [exact Hm | exact Hk].
Defined.



(** * Properties of the pages *)

Lemma elements_tech_badges (type : string) (names : list string) :
  type ≠ "span" → flat_map (elements type) (map tech_badge names) = [].
Proof.
  intros Ht. induction names as [|name names IH]; [done|].
  simpl. by case_decide.
Qed.

Lemma elements_and_then (type : string) (value : option string)
    (element : string → JSX) :
  elements type (and_then value element) =
    match value with
    | Some s => if decide (s = "") then [] else elements type (element s)
    | None => []
    end.
Proof. destruct value as [s|]; [|done]. simpl. by case_decide. Qed.

(** X10: a project card has a link exactly when the project has a url that
    is not the empty string. The link then goes to that url, opens a new
    tab without access to the opener, and is labelled with the title. *)
Theorem project_card_link (index : nat) (project : Project) :
  match url project with
  | Some u =>
      if decide (u = "") then elements "a" (project_card index project) = []
      else ∃ props,
        elements "a" (project_card index project) = [props]
        ∧ prop "href" props = Some u
        ∧ prop "target" props = Some "_blank"
        ∧ prop "rel" props = Some "noopener noreferrer"
        ∧ prop "aria-label" props = Some ("Visit " +:+ title project)
  | None => elements "a" (project_card index project) = []
  end.
Proof.
  assert (elements "a" (project_card index project)
          = elements "a" (and_then (url project) (λ u,
              Element "a" None
                [("href", Str u); ("target", Str "_blank");
                 ("rel", Str "noopener noreferrer");
                 ("className", Str "text-muted-foreground transition-colors hover:text-foreground");
                 ("aria-label", Str ("Visit " +:+ title project))]
                [Element "ExternalLink" None [("className", Str "h-4 w-4")] []]))
             ++ elements "a" (and_then (note project) (λ note,
                  Element "span" None
                    [("className", Str "rounded-full bg-muted px-2 py-1 text-xs text-muted-foreground")]
                    [Text note]))) as ->.
  { unfold project_card. simpl.
    rewrite elements_tech_badges by discriminate.
    by rewrite !app_nil_r. }
  rewrite !elements_and_then.
  assert (match note project with
          | Some s => if decide (s = "") then []
                      else elements "a" (Element "span" None
                        [("className", Str "rounded-full bg-muted px-2 py-1 text-xs text-muted-foreground")]
                        [Text s])
          | None => []
          end = []) as ->.
  { destruct (note project) as [s|]; [|done]. by case_decide. }
  rewrite app_nil_r. destruct (url project) as [u|]; [|done].
  case_decide; [done|]. eexists. split; [reflexivity|]. by split_and!.
Qed.

(** X11: no anchor the components of the site create opens a new tab
    with access to its opener: on every anchor with [target="_blank"] the
    prop [rel] is ["noopener noreferrer"]. This holds for the card of any
    project, for the home page and the footer with any address, and for
    the layout around any children for which it holds. *)
Theorem new_tab_anchors_are_safe (EMAIL : string) (index : nat)
    (project : Project) (children : list JSX) :
  Forall safe_anchor (elements "a" (project_card index project))
  ∧ Forall safe_anchor (elements "a" (HomePage EMAIL))
  ∧ Forall safe_anchor (elements "a" (Footer EMAIL))
  ∧ Forall safe_anchor (elements "a" Nav)
  ∧ (Forall safe_anchor (flat_map (elements "a") children) →
     Forall safe_anchor (elements "a" (Layout children))).
Proof.
  split_and!.
  - pose proof (project_card_link index project) as Hc.
    destruct (url project) as [u|]; [|by rewrite Hc].
    case_decide; [by rewrite Hc|].
    destruct Hc as (props & -> & _ & _ & Hr & _).
    repeat constructor. by intros _.
  - repeat constructor; by intros [=].
  - repeat constructor; by intros _.
  - constructor.
  - intros Hc. unfold Layout. simpl. rewrite app_nil_r.
    constructor; [by intros [=] | done].
Qed.

Lemma new_tab_anchors_are_safe_witness :
  Forall safe_anchor
    (elements "a" (Layout [HomePage "me@example.org"])).
Proof.
  destruct (new_tab_anchors_are_safe "me@example.org" 0
              {| title := ""; description := ""; tech := []; url := None;
                 note := None |} [HomePage "me@example.org"])
    as (_ & Hh & _ & _ & Hl).
  apply Hl. apply Forall_app. split; [exact Hh | constructor].
Defined.

Lemma keys_imap_project_card (n : nat) (ps : list Project) :
  keys (imap (λ i, project_card (n + i)) ps)
  = map (λ i, Some (Index i)) (seq n (length ps)).
Proof.
  revert n. induction ps as [|p ps IH]; intros n; [done|].
  simpl. rewrite Nat.add_0_r. f_equal.
  rewrite <- IH. unfold keys. f_equal. apply imap_ext.
  intros i x _. simpl. f_equal. lia.
Qed.

Lemma keys_tech_badges (names : list string) :
  keys (map tech_badge names) = map (λ name, Some (Named name)) names.
Proof. unfold keys. rewrite <- list_fmap_compose. by apply map_ext. Qed.

(** X12: the keys React is given are distinct within each array. The
    cards of any list of projects are keyed by their positions; the links
    of the footer are keyed by their hrefs, which differ for any address;
    the badges of a project are keyed by the names of its technologies,
    which are distinct exactly when those names are, as they are for each
    project of the site. *)
Theorem keys_are_distinct (EMAIL : string) (ps : list Project)
    (project : Project) :
  NoDup (keys (imap project_card ps))
  ∧ NoDup (keys (map social_link (socialLinks EMAIL)))
  ∧ (NoDup (keys (map tech_badge (tech project))) ↔ NoDup (tech project))
  ∧ Forall (λ p, NoDup (keys (map tech_badge (tech p)))) projects.
Proof.
  assert (∀ names, NoDup (keys (map tech_badge names)) ↔ NoDup names) as Hb.
  { intros names. rewrite keys_tech_badges. split.
    - apply NoDup_fmap_1.
    - apply NoDup_fmap_2. by intros a b [=]. }
  split_and!.
  - rewrite (keys_imap_project_card 0). apply NoDup_fmap_2.
    + by intros a b [=].
    + apply NoDup_seq.
  - simpl. rewrite !NoDup_cons, !not_elem_of_cons.
    split_and!; try discriminate; try apply not_elem_of_nil.
    apply NoDup_nil_2.
  - apply Hb.
  - unfold projects.
    repeat (apply Forall_cons; split; [apply Hb; by apply (bool_decide_unpack _)|]).
    apply Forall_nil_2.
Qed.

(** X13: [App] puts every consumer inside the provider. In the tree
    rendered from [<App />], with any address and any state of the
    provider's hooks, [useTheme] returns the provider's value at every
    position but those of [App] and of [ThemeProvider] themselves; the
    theme toggle that [Nav] renders is at such a position. *)
Theorem App_consumers_inside_provider (EMAIL : string) (h : Hooks) :
  ∃ fuel tree,
    render_tree EMAIL h fuel (Element "App" None [] []) = Some [tree]
    ∧ Forall (λ '(type, above),
        type = "App" ∨ type = "ThemeProvider"
        ∨ useTheme above = Normal (value h)) (consumers h [] tree)
    ∧ ("ThemeToggle",
       [Other "nav"; Other "header"; Other "Nav"; Other "div";
        Other "Layout"; Other "ThemeContext.Provider"; ThemeProvider h;
        Other "App"]) ∈ consumers h [] tree.
Proof.
  exists 17. eexists. split; [vm_compute; reflexivity|]. split.
  - vm_compute consumers.
    repeat (apply Forall_cons; split;
            [first [ by left | by right; left | by right; right ]|]).
    apply Forall_nil_2.
  - vm_compute consumers. do 10 apply list_elem_of_further.
    apply list_elem_of_here.
Qed.

(** * Properties of the stop hook *)

(** What one block does to the shell. *)
Lemma check_run (host : Host) (running command failed passed name : string)
    (s : Shell) :
  check host running command failed passed name s =
  ((), {| HAS_ERRORS := if hook_failed host command then 1 else HAS_ERRORS s;
          stdout := stdout s ++
            [running; if hook_failed host command then failed else passed;
             "⏱️  " +:+ name +:+ " took " +:+ elapsed host command +:+ "s";
             ""];
          stderr := stderr s ++
            (if hook_failed host command then [output (exec host command)]
             else []);
          commands := commands s ++ [command] |}).
Proof.
  unfold check, hook_failed, mbind, Sh_bind, capture.
  case_bool_decide as Hf.
  - rewrite decide_True by done. unfold echo, echo_err, set_HAS_ERRORS.
    simpl. by rewrite <- !app_assoc.
  - rewrite decide_False by (intros Hn; by apply Hn). unfold echo. simpl.
    by rewrite <- !app_assoc, app_nil_r.
Qed.

Lemma hook_run (host : Host) :
  hook host shell_start =
  (if existsb (hook_failed host) checks then 2 else 0,
   {| HAS_ERRORS := if existsb (hook_failed host) checks then 1 else 0;
      stdout :=
        ["🔍 Running code quality checks..."; "";
         "📋 Running TypeScript type checking...";
         if hook_failed host "npm run check"
         then "❌ TypeScript type checking failed"
         else "✅ TypeScript type checking passed";
         "⏱️  TypeScript check took " +:+ elapsed host "npm run check" +:+ "s";
         "";
         "🧪 Running unit tests...";
         if hook_failed host "npx vitest run"
         then "❌ Unit tests failed" else "✅ Unit tests passed";
         "⏱️  Unit tests took " +:+ elapsed host "npx vitest run" +:+ "s";
         "";
         "🔍 Running ESLint with auto-fix...";
         if hook_failed host "npm run lint:fix -- --quiet"
         then "❌ ESLint found unfixable issues"
         else "✅ ESLint passed (auto-fixed where possible)";
         "⏱️  ESLint took " +:+ elapsed host "npm run lint:fix -- --quiet" +:+ "s";
         "";
         "💅 Running Prettier check...";
         if hook_failed host "npm run format"
         then "❌ Prettier formatting issues found"
         else "✅ Prettier formatting is correct";
         "⏱️  Prettier check took " +:+ elapsed host "npm run format" +:+ "s";
         "";
         if existsb (hook_failed host) checks
         then "⚠️  Some checks failed. Please review the errors above."
         else "✨ All checks passed!"];
      stderr :=
        map (λ command, output (exec host command))
          (filter (λ command, hook_failed host command = true) checks);
      commands := checks |}).
Proof.
  unfold hook. unfold mbind at 1 2 3 4 5 6 7. unfold Sh_bind.
  unfold echo at 1 2, set_HAS_ERRORS at 1. simpl.
  rewrite !check_run. simpl.
  unfold checks. rewrite !filter_cons, filter_nil. simpl.
  destruct (hook_failed host "npm run check"),
    (hook_failed host "npx vitest run"),
    (hook_failed host "npm run lint:fix -- --quiet"),
    (hook_failed host "npm run format"); reflexivity.
Qed.

Lemma hook_failed_false (host : Host) (command : string) :
  hook_failed host command = false ↔ exit_status (exec host command) = 0.
Proof.
  unfold hook_failed. rewrite bool_decide_eq_false. split.
  - apply dec_stable.
  - intros Hz Hn. by apply Hn.
Qed.


Lemma no_check_failed (host : Host) :
  existsb (hook_failed host) checks = false
  ↔ Forall (λ command, exit_status (exec host command) = 0) checks.
Proof.
  unfold checks. simpl. rewrite !orb_false_iff, !hook_failed_false.
  split.
  - intros (? & ? & ? & ? & _). by repeat constructor.
  - intros (? & (? & (? & (? & _)%Forall_cons)%Forall_cons)%Forall_cons)%Forall_cons.
    done.
Qed.

(** X14: the script exits with 0 when each of the four commands returned
    0, and with 2 otherwise, never with another code. The last line it
    prints says that all checks passed exactly when it exits with 0. *)
Theorem hook_exit_code (host : Host) :
  ((hook host shell_start).1 = 0 ∨ (hook host shell_start).1 = 2)
  ∧ ((hook host shell_start).1 = 0
     ↔ Forall (λ command, exit_status (exec host command) = 0) checks)
  ∧ (last (stdout (hook host shell_start).2) = Some "✨ All checks passed!"
     ↔ (hook host shell_start).1 = 0).
Proof.
  rewrite hook_run, <- no_check_failed.
  generalize (existsb (hook_failed host) checks). intros [|]; simpl.
  - split_and!; [by right | split; intros [=] | split; intros [=]].
  - split_and!; [by left | done | done].
Qed.


Lemma hook_on_failing_host :
  (hook failing_host shell_start).1 = 2
  ∧ stderr (hook failing_host shell_start).2 = ["1 failed"; "2 problems"]
  ∧ commands (hook failing_host shell_start).2 = checks.
Proof. by split_and!. Qed.
